(** * react-youtube: the reconciliation rules of the [YouTube] component

    A shallow embedding of [packages/react-youtube/src/YouTube.tsx]: the three
    predicates that compare the previous and the next props, the option
    filter used by the reset predicate, the imperative methods of the
    component and the relay of the player's events.

    Conventions of the model.
    - A JavaScript primitive is a [prim].  Numbers are the finite numbers,
      represented by integers (pixel sizes, seconds, the 0/1 autoplay flag);
      NaN, the one number that is not [===] to itself, is not represented.
    - An object used as a dictionary is a [gmap string prim].  The option
      object of the component has primitive-valued own properties ([width],
      [height], [host], ...) and the property [playerVars], which the
      [Options] interface types as an object or [undefined].
    - Functions supplied by the caller and player handles are known by
      identity only.
    - The methods of the component run in a small state-and-exception monad
      over the instance; the calls made on the player are appended to a
      trace. *)

From Stdlib Require Import ZArith.
From stdpp Require Import base decidable option list strings gmap fin_maps pretty.

Local Open Scope Z_scope.

(** ** JavaScript values *)

Inductive prim : Type :=
  | Undefined
  | Null
  | Bool (b : bool)
  | Num (n : Z)
  | Str (s : string).

Global Instance prim_eq_dec : EqDecision prim.
Proof. solve_decision. Defined.

Global Instance prim_inhabited : Inhabited prim := populate Undefined.

(** [a === b] and [a !== b] on primitives. *)
Definition strict_eq (a b : prim) : bool := bool_decide (a = b).
Definition strict_neq (a b : prim) : bool := negb (strict_eq a b).

Infix "===" := strict_eq (at level 70, no associativity).
Infix "!==" := strict_neq (at level 70, no associativity).

(** Truthiness, as tested by [if (x)] and by [x || y]. *)
Definition truthy (v : prim) : bool :=
  match v with
  | Undefined | Null => false
  | Bool b => b
  | Num n => negb (n =? 0)
  | Str s => negb (bool_decide (s = ""%string))
  end.

(** [typeof v] *)
Definition typeof (v : prim) : string :=
  match v with
  | Undefined => "undefined"
  | Null => "object"
  | Bool _ => "boolean"
  | Num _ => "number"
  | Str _ => "string"
  end.

(** [v.toString()] for a value that has the method. *)
Definition toString (v : prim) : string :=
  match v with
  | Undefined => "undefined"
  | Null => "null"
  | Bool true => "true"
  | Bool false => "false"
  | Num n => pretty n
  | Str s => s
  end.

(** Plain objects whose own properties hold primitives. *)
Abbreviation obj := (gmap string prim).

(** [o.k]: the own property, [undefined] when there is none. *)
Definition get (o : obj) (k : string) : prim := default Undefined (o !! k).

(** [k in o] for a plain object. *)
Definition has (o : obj) (k : string) : bool := bool_decide (is_Some (o !! k)).

(** [Object.keys(o)]. *)
Definition keys (o : obj) : list string := (map_to_list o).*1.

(** ** The option object

    [Options] of [youtube-player/dist/types].  The property [playerVars] is
    kept apart from the primitive-valued ones: it may be missing, present
    with the value [undefined], or present with an object. *)

Inductive PlayerVars : Type :=
  | PVAbsent
  | PVUndefined
  | PVObject (vars : obj).

Global Instance PlayerVars_eq_dec : EqDecision PlayerVars.
Proof. solve_decision. Defined.

Record Options : Type := mkOptions {
  own : obj;                 (* every own property but [playerVars] *)
  playerVars : PlayerVars;
}.

Global Instance Options_eq_dec : EqDecision Options.
Proof. solve_decision. Defined.

(** [opts.playerVars || {}] *)
Definition or_empty (pv : PlayerVars) : obj :=
  match pv with
  | PVObject vars => vars
  | PVAbsent | PVUndefined => ∅
  end.

(** [{...opts.playerVars}]: the own properties of an object, none for
    [undefined]. *)
Definition spread (pv : PlayerVars) : obj :=
  match pv with
  | PVObject vars => vars
  | PVAbsent | PVUndefined => ∅
  end.

(** ** Deep equality

    [isEqual] is the default export of [fast-deep-equal].  On two plain
    objects it compares the number of keys, checks that every key of the
    first is an own property of the second, and compares the values key by
    key; on two primitives it is [===]. *)

Definition isEqual_prim (a b : prim) : bool := a === b.

Definition isEqual_obj (a b : obj) : bool :=
  bool_decide (length (keys a) = length (keys b))
  && forallb (has b) (keys a)
  && forallb (λ k, isEqual_prim (get a k) (get b k)) (keys a).

Definition isEqual_playerVars (a b : PlayerVars) : bool :=
  match a, b with
  | PVAbsent, PVAbsent => true
  | PVUndefined, PVUndefined => true
  | PVObject x, PVObject y => isEqual_obj x y
  | _, _ => false
  end.

Definition isEqual (a b : Options) : bool :=
  isEqual_obj (own a) (own b) && isEqual_playerVars (playerVars a) (playerVars b).

(** ** Props *)

(** A function supplied by the caller; [Noop] is [() => {}]. *)
Inductive Callback : Type :=
  | Noop
  | UserFn (f : nat).

Record YouTubeProps : Type := mkProps {
  videoId : prim;
  id : prim;
  className : prim;
  containerClassName : prim;
  containerStyle : obj;
  title : prim;
  loading : prim;
  opts : Options;
  onReady : option Callback;
  onError : option Callback;
  onPlay : option Callback;
  onPause : option Callback;
  onEnd : option Callback;
  onStateChange : option Callback;
  onPlaybackRateChange : option Callback;
  onPlaybackQualityChange : option Callback;
}.

Definition defaultProps : YouTubeProps := {|
  videoId := Str "";
  id := Str "";
  className := Str "";
  loading := Undefined;
  opts := mkOptions ∅ PVAbsent;
  containerClassName := Str "";
  containerStyle := ∅;
  onReady := Some Noop;
  onError := Some Noop;
  onPlay := Some Noop;
  onPause := Some Noop;
  onEnd := Some Noop;
  onStateChange := Some Noop;
  onPlaybackRateChange := Some Noop;
  onPlaybackQualityChange := Some Noop;
  title := Str "";
|}.

(** ** The three predicates *)

Definition shouldUpdateVideo (prevProps props : YouTubeProps) : bool :=
  if videoId prevProps !== videoId props then true
  else
    let prevVars := or_empty (playerVars (opts prevProps)) in
    let vars := or_empty (playerVars (opts props)) in
    (get prevVars "start" !== get vars "start")
    || (get prevVars "end" !== get vars "end").

Definition filterResetOptions (opts : Options) : Options := {|
  own := <["width" := Num 0]> (<["height" := Num 0]> (own opts));
  playerVars :=
    PVObject (<["end" := Num 0]> (<["start" := Num 0]>
             (<["autoplay" := Num 0]> (spread (playerVars opts)))));
|}.

Definition shouldResetPlayer (prevProps props : YouTubeProps) : bool :=
  (videoId prevProps !== videoId props)
  || negb (isEqual (filterResetOptions (opts prevProps))
                   (filterResetOptions (opts props))).

Definition shouldUpdatePlayer (prevProps props : YouTubeProps) : bool :=
  (id prevProps !== id props)
  || (className prevProps !== className props)
  || (get (own (opts prevProps)) "width" !== get (own (opts props)) "width")
  || (get (own (opts prevProps)) "height" !== get (own (opts props)) "height")
  || (title prevProps !== title props).

(** ** The player and the instance *)

(** DOM elements and player handles are known by identity. *)
Definition Element : Type := nat.
Definition Player : Type := nat.

Inductive EventName : Type :=
  | ready
  | error
  | stateChange
  | playbackRateChange
  | playbackQualityChange.

(** The argument of [loadVideoById] and [cueVideoById]: [videoId] and, when
    they were set, [startSeconds] and [endSeconds]. *)
Record VideoOpts : Type := mkVideoOpts {
  vo_videoId : prim;
  startSeconds : option prim;
  endSeconds : option prim;
}.

(** A method call on a player handle. *)
Inductive PlayerCall : Type :=
  | on (ev : EventName)
  | destroy
  | getIframe
  | stopVideo
  | loadVideoById (o : VideoOpts)
  | cueVideoById (o : VideoOpts).

Inductive Effect : Type :=
  | youTubePlayer (mount : option Element) (playerOpts : Options) (h : Player)
  | Call (h : Player) (c : PlayerCall).

(** The fields of the component ([props], [container], [internalPlayer])
    and its surroundings: whether [document] is defined, the number of
    handles the factory has handed out, and the calls made so far. *)
Record World : Type := mkWorld {
  props : YouTubeProps;
  container : option Element;
  internalPlayer : option Player;
  document : bool;
  created : nat;
  trace : list Effect;
}.

(** [constructor(props)] *)
Definition constructor (p : YouTubeProps) (doc : bool) : World := {|
  props := p;
  container := None;
  internalPlayer := None;
  document := doc;
  created := 0;
  trace := [];
|}.

(** ** The monad of the methods *)

Inductive exn : Type :=
  | TypeError (msg : string).

Inductive result (A : Type) : Type :=
  | Ok (a : A)
  | Throw (e : exn).
Arguments Ok {A} a.
Arguments Throw {A} e.

Definition M (A : Type) : Type := World → result A * World.

Global Instance M_ret : MRet M := λ A a w, (Ok a, w).
Global Instance M_bind : MBind M := λ A B f m w,
  match m w with
  | (Ok a, w') => f a w'
  | (Throw e, w') => (Throw e, w')
  end.

Definition throw {A} (e : exn) : M A := λ w, (Throw e, w).
Definition this {A} (f : World → A) : M A := λ w, (Ok (f w), w).

(** The world after one more call. *)
Definition log (e : Effect) (w : World) : World :=
  mkWorld (props w) (container w) (internalPlayer w) (document w)
          (created w) (trace w ++ [e]).

Definition emit (e : Effect) : M unit := λ w, (Ok tt, log e w).
Definition when (b : bool) (m : M unit) : M unit := if b then m else mret tt.

(** [this.internalPlayer?.c(...)] *)
Definition optCall (c : PlayerCall) : M unit :=
  p ← this internalPlayer;
  match p with
  | Some h => emit (Call h c)
  | None => mret tt
  end.

(** [this.internalPlayer = youTubePlayer(mount, playerOpts)] *)
Definition newPlayer (mount : option Element) (playerOpts : Options) : M Player := λ w,
  let h := created w in
  (Ok h, mkWorld (props w) (container w) (Some h) (document w)
                 (S (created w)) (trace w ++ [youTubePlayer mount playerOpts h])).

(** ** Methods *)

Definition refContainer (c : Element) : M unit := λ w,
  (Ok tt, mkWorld (props w) (Some c) (internalPlayer w) (document w)
                  (created w) (trace w)).

Definition getInternalPlayer : M (option Player) := this internalPlayer.

Definition createPlayer : M unit :=
  doc ← this document;
  if negb doc then mret tt
  else
    p ← this props;
    c ← this container;
    let playerOpts := {|
      own := <["videoId" := videoId p]> (own (opts p));
      playerVars := playerVars (opts p);
    |} in
    h ← newPlayer c playerOpts;
    emit (Call h (on ready));;
    emit (Call h (on error));;
    emit (Call h (on stateChange));;
    emit (Call h (on playbackRateChange));;
    emit (Call h (on playbackQualityChange)).

Definition componentDidMount : M unit := createPlayer.

Definition componentWillUnmount : M unit := optCall destroy.

(** [resetPlayer] calls [destroy]; [createPlayer] runs when the promise is
    fulfilled. *)
Definition resetPlayer : M unit := optCall destroy.
Definition resetPlayer_then : M unit := createPlayer.

(** [updatePlayer] calls [getIframe]; the attribute writes happen when the
    promise is fulfilled. *)
Inductive AttrOp : Type :=
  | setAttribute (name value : string)
  | removeAttribute (name : string).

Definition updatePlayer : M unit := optCall getIframe.

Definition updatePlayer_then (p : YouTubeProps) : list AttrOp :=
  [ if truthy (id p) then setAttribute "id" (toString (id p))
    else removeAttribute "id";
    if truthy (className p) then setAttribute "class" (toString (className p))
    else removeAttribute "class";
    if truthy (get (own (opts p)) "width")
    then setAttribute "width" (toString (get (own (opts p)) "width"))
    else removeAttribute "width";
    if truthy (get (own (opts p)) "height")
    then setAttribute "height" (toString (get (own (opts p)) "height"))
    else removeAttribute "height";
    if bool_decide (typeof (title p) = "string"%string)
    then setAttribute "title" (toString (title p))
    else setAttribute "title" "YouTube video player" ].

Definition updateVideo : M unit :=
  p ← this props;
  if bool_decide (typeof (videoId p) = "undefined"%string) || (videoId p === Null)
  then optCall stopVideo
  else
    '(autoplay, o) ←
      match playerVars (opts p) with
      | PVAbsent => mret (false, mkVideoOpts (videoId p) None None)
      | PVUndefined =>
        throw (TypeError "Cannot read properties of undefined (reading 'autoplay')")
      | PVObject vars =>
        mret (get vars "autoplay" === Num 1,
              mkVideoOpts (videoId p)
                (if has vars "start" then Some (get vars "start") else None)
                (if has vars "end" then Some (get vars "end") else None))
      end;
    if autoplay : bool then optCall (loadVideoById o)
    else optCall (cueVideoById o).

Definition componentDidUpdate (prevProps : YouTubeProps) : M unit :=
  p ← this props;
  when (shouldUpdatePlayer prevProps p) updatePlayer;;
  when (shouldResetPlayer prevProps p) resetPlayer;;
  when (shouldUpdateVideo prevProps p) updateVideo.

(** ** Relay of the player's events *)

Record CustomEvent : Type := mkEvent { data : prim }.

Inductive Invocation : Type :=
  | Invoke (f : Callback) (event : CustomEvent).

(** [f?.(event)] *)
Definition optInvoke (f : option Callback) (event : CustomEvent) : list Invocation :=
  match f with
  | Some g => [Invoke g event]
  | None => []
  end.

(** [YouTube.PlayerState] *)
Definition PlayerState : obj :=
  list_to_map
    [ ("UNSTARTED"%string, Num (-1));
      ("ENDED"%string, Num 0);
      ("PLAYING"%string, Num 1);
      ("PAUSED"%string, Num 2);
      ("BUFFERING"%string, Num 3);
      ("CUED"%string, Num 5) ].

Definition onPlayerReady (p : YouTubeProps) (event : CustomEvent) : list Invocation :=
  optInvoke (onReady p) event.

Definition onPlayerError (p : YouTubeProps) (event : CustomEvent) : list Invocation :=
  optInvoke (onError p) event.

Definition onPlayerStateChange (p : YouTubeProps) (event : CustomEvent) : list Invocation :=
  optInvoke (onStateChange p) event
  ++ (if data event === get PlayerState "ENDED" then optInvoke (onEnd p) event
      else if data event === get PlayerState "PLAYING" then optInvoke (onPlay p) event
      else if data event === get PlayerState "PAUSED" then optInvoke (onPause p) event
      else []).

Definition onPlayerPlaybackRateChange (p : YouTubeProps) (event : CustomEvent) : list Invocation :=
  optInvoke (onPlaybackRateChange p) event.

Definition onPlayerPlaybackQualityChange (p : YouTubeProps) (event : CustomEvent) : list Invocation :=
  optInvoke (onPlaybackQualityChange p) event.

(** The handler the component subscribes for each event of the player. *)
Definition handler (ev : EventName) : YouTubeProps → CustomEvent → list Invocation :=
  match ev with
  | ready => onPlayerReady
  | error => onPlayerError
  | stateChange => onPlayerStateChange
  | playbackRateChange => onPlayerPlaybackRateChange
  | playbackQualityChange => onPlayerPlaybackQualityChange
  end.

(** * Vocabulary of the statements *)

(** ** Objects without some keys *)

(** [omit ks o]: the object [o] without the keys [ks]. *)
Definition omit (ks : list string) (o : obj) : obj := foldr delete o ks.

(** [assign kvs o]: the object [{...o, k1: v1, ..., kn: vn}], the last pair
    of the literal first in the list. *)
Definition assign (kvs : list (string * prim)) (o : obj) : obj :=
  foldr (λ kv, <[kv.1 := kv.2]>) o kvs.

(** The options neutralized by [filterResetOptions]. *)
Definition neutralOwn : list string := ["width"; "height"]%string.
Definition neutralVars : list string := ["end"; "start"; "autoplay"]%string.

(** ** The call of [updateVideo] *)

(** What [updateVideo] does for a defined identifier when [playerVars] is
    missing or an object. *)
Definition videoOpts (vid : prim) (pv : PlayerVars) : VideoOpts :=
  mkVideoOpts vid (or_empty pv !! "start") (or_empty pv !! "end").

Definition videoCall (vid : prim) (pv : PlayerVars) : PlayerCall :=
  if get (or_empty pv) "autoplay" === Num 1
  then loadVideoById (videoOpts vid pv)
  else cueVideoById (videoOpts vid pv).

(** ** Methods that leave the handle in place *)

Definition keeps_player {A} (m : M A) : Prop :=
  ∀ w, internalPlayer (m w).2 = internalPlayer w.

(** ** Sample configurations *)

(** The props of [<YouTube videoId={v} opts={o} />]. *)
Definition element (v : prim) (o : Options) : YouTubeProps := {|
  videoId := v;
  id := id defaultProps;
  className := className defaultProps;
  loading := loading defaultProps;
  opts := o;
  containerClassName := containerClassName defaultProps;
  containerStyle := containerStyle defaultProps;
  onReady := onReady defaultProps;
  onError := onError defaultProps;
  onPlay := onPlay defaultProps;
  onPause := onPause defaultProps;
  onEnd := onEnd defaultProps;
  onStateChange := onStateChange defaultProps;
  onPlaybackRateChange := onPlaybackRateChange defaultProps;
  onPlaybackQualityChange := onPlaybackQualityChange defaultProps;
  title := title defaultProps;
|}.

(** A component mounted in a browser: it holds the handle [0]. *)
Definition mounted (p : YouTubeProps) : World := {|
  props := p;
  container := Some 0%nat;
  internalPlayer := Some 0%nat;
  document := true;
  created := 1;
  trace := [];
|}.

(** ** Relations between two configurations *)

(** The two configurations differ only in the [start] and [end] of
    [opts.playerVars]: same video, same other options, and the value read
    at [start] or at [end] changes.  Nothing is asked of the props that
    neither predicate reads. *)
Record trim_change (prev next : YouTubeProps) : Prop := mk_trim_change {
  tc_videoId : videoId prev = videoId next;
  tc_own : own (opts prev) = own (opts next);
  tc_vars :
    omit ["start"; "end"]%string (spread (playerVars (opts prev)))
    = omit ["start"; "end"]%string (spread (playerVars (opts next)));
  tc_differ :
    get (or_empty (playerVars (opts prev))) "start"
      ≠ get (or_empty (playerVars (opts next))) "start"
    ∨ get (or_empty (playerVars (opts prev))) "end"
      ≠ get (or_empty (playerVars (opts next))) "end";
}.

(** The two option objects differ in an option other than [width],
    [height], [autoplay], [start] and [end]. *)
Definition differs_outside (a b : Options) : Prop :=
  omit neutralOwn (own a) ≠ omit neutralOwn (own b)
  ∨ omit neutralVars (spread (playerVars a)) ≠ omit neutralVars (spread (playerVars b)).


(** ** The calls of one method, as a list *)

(** The world after the calls [l]. *)
Definition logs (l : list Effect) (w : World) : World :=
  mkWorld (props w) (container w) (internalPlayer w) (document w)
          (created w) (trace w ++ l).

(** The call [c] on the handle, if there is one. *)
Definition onPlayer (ip : option Player) (c : PlayerCall) : list Effect :=
  match ip with
  | Some h => [Call h c]
  | None => []
  end.

(** The five subscriptions of [createPlayer], in their order. *)
Definition subscriptions (h : Player) : list Effect :=
  [ Call h (on ready); Call h (on error); Call h (on stateChange);
    Call h (on playbackRateChange); Call h (on playbackQualityChange) ].

(** The options [createPlayer] hands to the factory:
    [{ ...this.props.opts, videoId: this.props.videoId }]. *)
Definition factoryOpts (p : YouTubeProps) : Options := {|
  own := <["videoId" := videoId p]> (own (opts p));
  playerVars := playerVars (opts p);
|}.

(** The world after [createPlayer] in a browser: a new handle, the factory
    call and the five subscriptions. *)
Definition withNewPlayer (w : World) : World :=
  mkWorld (props w) (container w) (Some (created w)) (document w) (S (created w))
          (trace w ++ youTubePlayer (container w) (factoryOpts (props w)) (created w)
                   :: subscriptions (created w)).

(** The error of reading [autoplay] of an [undefined] [playerVars]. *)
Definition autoplayError : exn :=
  TypeError "Cannot read properties of undefined (reading 'autoplay')".

(** The identifier is [undefined] or [null]. *)
Definition nullish (v : prim) : bool :=
  bool_decide (typeof v = "undefined"%string) || (v === Null).

(** [updateVideo] throws on these props. *)
Definition videoThrows (p : YouTubeProps) : bool :=
  negb (nullish (videoId p)) && bool_decide (playerVars (opts p) = PVUndefined).

(** The calls of [updateVideo]. *)
Definition videoCalls (ip : option Player) (p : YouTubeProps) : list Effect :=
  if nullish (videoId p) then onPlayer ip stopVideo
  else if bool_decide (playerVars (opts p) = PVUndefined) then []
  else onPlayer ip (videoCall (videoId p) (playerVars (opts p))).

(** The calls of [componentDidUpdate]: [getIframe], [destroy] and the call
    of [updateVideo], each when its predicate fires. *)
Definition didUpdateCalls (prevProps : YouTubeProps) (w : World) : list Effect :=
  (if shouldUpdatePlayer prevProps (props w)
   then onPlayer (internalPlayer w) getIframe else [])
  ++ (if shouldResetPlayer prevProps (props w)
      then onPlayer (internalPlayer w) destroy else [])
  ++ (if shouldUpdateVideo prevProps (props w)
      then videoCalls (internalPlayer w) (props w) else []).

Global Instance EventName_eq_dec : EqDecision EventName.
Proof. solve_decision. Defined.

(** The name an attribute write is about. *)
Definition attrName (op : AttrOp) : string :=
  match op with
  | setAttribute name _ => name
  | removeAttribute name => name
  end.



(** No predicate fires between the two configurations. *)
Definition silent (prev next : YouTubeProps) : Prop :=
  shouldUpdatePlayer prev next = false
  ∧ shouldResetPlayer prev next = false
  ∧ shouldUpdateVideo prev next = false.

(** * Properties *)

(** ** Strict equality and deep equality *)

Lemma strict_eq_true (a b : prim) : (a === b) = true ↔ a = b.
Proof. unfold strict_eq. by rewrite bool_decide_eq_true. Qed.

Lemma strict_neq_true (a b : prim) : (a !== b) = true ↔ a ≠ b.
Proof.
  unfold strict_neq, strict_eq. rewrite negb_true_iff.
  by rewrite bool_decide_eq_false.
Qed.

Lemma strict_neq_false (a b : prim) : (a !== b) = false ↔ a = b.
Proof.
  unfold strict_neq, strict_eq. rewrite negb_false_iff.
  by rewrite bool_decide_eq_true.
Qed.

Lemma strict_neq_refl (a : prim) : (a !== a) = false.
Proof. by apply strict_neq_false. Qed.

Lemma elem_of_keys (o : obj) (k : string) : k ∈ keys o ↔ is_Some (o !! k).
Proof.
  unfold keys. rewrite list_elem_of_fmap. split.
  - intros [[k' v] [-> Hin]]. apply elem_of_map_to_list in Hin. by exists v.
  - intros [v Hv]. exists (k, v). split; [done|]. by apply elem_of_map_to_list.
Qed.

Lemma length_keys (o : obj) : length (keys o) = size o.
Proof. unfold keys. by rewrite length_fmap, length_map_to_list. Qed.

Lemma has_true (o : obj) (k : string) : has o k = true ↔ is_Some (o !! k).
Proof. unfold has. by rewrite bool_decide_eq_true. Qed.

(** Where the key is present, the value read is the value stored. *)
Lemma has_get_lookup (o : obj) (k : string) :
  (if has o k then Some (get o k) else None) = o !! k.
Proof.
  unfold has, get. by destruct (o !! k).
Qed.

(** On plain objects the key-by-key comparison decides equality. *)
Lemma isEqual_obj_spec (a b : obj) : isEqual_obj a b = true ↔ a = b.
Proof.
  unfold isEqual_obj. rewrite !andb_true_iff, bool_decide_eq_true.
  rewrite !length_keys. split.
  - intros [[Hsize Hhas] Hval].
    apply map_subseteq_size_eq; [| by rewrite Hsize].
    apply map_subseteq_spec. intros k v Hk.
    assert (Hin : k ∈ keys a) by (apply elem_of_keys; by eexists).
    assert (Hb : is_Some (b !! k)).
    { apply has_true. apply Is_true_true.
      pose proof (proj1 (forallb_True _ _) (Is_true_true_2 _ Hhas)) as HF.
      rewrite Forall_forall in HF. by apply HF. }
    destruct Hb as [v' Hv'].
    pose proof (proj1 (forallb_True _ _) (Is_true_true_2 _ Hval)) as HF.
    rewrite Forall_forall in HF. specialize (HF k Hin).
    apply Is_true_true, strict_eq_true in HF.
    unfold get in HF. rewrite Hk, Hv' in HF. simpl in HF. by subst.
  - intros ->. split; [split; [done|] |].
    + apply Is_true_true, forallb_True, Forall_forall.
      intros k Hin. apply Is_true_true_2, has_true. by apply elem_of_keys.
    + apply Is_true_true, forallb_True, Forall_forall.
      intros k _. apply Is_true_true_2. by apply strict_eq_true.
Qed.

Lemma isEqual_playerVars_spec (a b : PlayerVars) :
  isEqual_playerVars a b = true ↔ a = b.
Proof.
  destruct a, b; simpl; try (split; [discriminate | congruence]); try done.
  rewrite isEqual_obj_spec. split; congruence.
Qed.

Lemma isEqual_spec (a b : Options) : isEqual a b = true ↔ a = b.
Proof.
  unfold isEqual. rewrite andb_true_iff, isEqual_obj_spec, isEqual_playerVars_spec.
  destruct a, b; simpl. split; [intros [-> ->]; done | intros [= -> ->]; done].
Qed.

Lemma isEqual_false (a b : Options) : isEqual a b = false ↔ a ≠ b.
Proof.
  rewrite <- not_true_iff_false. by rewrite isEqual_spec.
Qed.


(** ** Objects that agree outside a set of keys *)

Section agree.
Implicit Types (a b o : obj) (k : string) (ks : list string).

Lemma lookup_omit ks o k :
  omit ks o !! k = if decide (k ∈ ks) then None else o !! k.
Proof.
  unfold omit. induction ks as [|k' ks IH]; cbn [foldr].
  - rewrite decide_False; [done | apply not_elem_of_nil].
  - rewrite lookup_delete. destruct (decide (k' = k)) as [->|Hne].
    + rewrite decide_True; [done | apply list_elem_of_here].
    + rewrite IH. destruct (decide (k ∈ ks)) as [Hin|Hnin].
      * rewrite decide_True; [done | by apply list_elem_of_further].
      * rewrite decide_False; [done |].
        intros [?|?]%elem_of_cons; congruence.
Qed.

Lemma omit_eq_iff ks a b :
  omit ks a = omit ks b ↔ ∀ k, k ∉ ks → a !! k = b !! k.
Proof.
  split.
  - intros H k Hk. apply (f_equal (.!! k)) in H.
    by rewrite !lookup_omit, !decide_False in H.
  - intros H. apply map_eq. intros k. rewrite !lookup_omit.
    case_decide; [done | by apply H].
Qed.

Lemma lookup_assign_notin kvs o k :
  k ∉ kvs.*1 → assign kvs o !! k = o !! k.
Proof.
  induction kvs as [|[k' v] kvs IH]; simpl; [done|].
  intros Hk. apply not_elem_of_cons in Hk as [Hne Hk].
  rewrite lookup_insert_ne; [by apply IH | done].
Qed.

Lemma lookup_assign_in kvs a b k :
  k ∈ kvs.*1 → assign kvs a !! k = assign kvs b !! k.
Proof.
  induction kvs as [|[k' v] kvs IH]; simpl.
  - intros H. by apply elem_of_nil in H.
  - intros Hk. destruct (decide (k' = k)) as [->|Hne].
    + by rewrite !lookup_insert_eq.
    + rewrite !lookup_insert_ne by done. apply IH.
      apply elem_of_cons in Hk as [?|?]; [congruence | done].
Qed.

(** Overwriting the keys of [kvs] on both sides hides exactly the
    differences at those keys. *)
Lemma assign_eq_iff kvs a b :
  assign kvs a = assign kvs b ↔ omit (kvs.*1) a = omit (kvs.*1) b.
Proof.
  rewrite omit_eq_iff. split.
  - intros H k Hk. apply (f_equal (.!! k)) in H.
    by rewrite !lookup_assign_notin in H.
  - intros H. apply map_eq. intros k.
    destruct (decide (k ∈ kvs.*1)) as [Hin|Hnin].
    + by apply lookup_assign_in.
    + rewrite !lookup_assign_notin by done. by apply H.
Qed.
End agree.

Lemma filterResetOptions_eq_iff (a b : Options) :
  filterResetOptions a = filterResetOptions b ↔
  omit neutralOwn (own a) = omit neutralOwn (own b)
  ∧ omit neutralVars (spread (playerVars a)) = omit neutralVars (spread (playerVars b)).
Proof.
  pose (kvo := [("width"%string, Num 0); ("height"%string, Num 0)]).
  pose (kvv := [("end"%string, Num 0); ("start"%string, Num 0);
                ("autoplay"%string, Num 0)]).
  unfold filterResetOptions. split.
  - intros [= H1 H2]. split.
    + by apply (assign_eq_iff kvo).
    + by apply (assign_eq_iff kvv).
  - intros [H1 H2]. f_equal; [| f_equal].
    + by apply (assign_eq_iff kvo).
    + by apply (assign_eq_iff kvv).
Qed.

(** The five neutralized options hold the sentinel 0 after the filter. *)
Lemma filterResetOptions_sentinels (o : Options) :
  get (own (filterResetOptions o)) "width" = Num 0
  ∧ get (own (filterResetOptions o)) "height" = Num 0
  ∧ get (or_empty (playerVars (filterResetOptions o))) "autoplay" = Num 0
  ∧ get (or_empty (playerVars (filterResetOptions o))) "start" = Num 0
  ∧ get (or_empty (playerVars (filterResetOptions o))) "end" = Num 0.
Proof.
  unfold filterResetOptions, get; cbn [own playerVars or_empty].
  repeat split;
    repeat (rewrite lookup_insert_eq || (rewrite lookup_insert_ne by done)); done.
Qed.

(** The reset predicate, characterized. *)
Lemma shouldResetPlayer_true (prevProps props : YouTubeProps) :
  shouldResetPlayer prevProps props = true ↔
  videoId prevProps ≠ videoId props
  ∨ filterResetOptions (opts prevProps) ≠ filterResetOptions (opts props).
Proof.
  unfold shouldResetPlayer.
  by rewrite orb_true_iff, strict_neq_true, negb_true_iff, isEqual_false.
Qed.

Lemma shouldResetPlayer_false (prevProps props : YouTubeProps) :
  shouldResetPlayer prevProps props = false ↔
  videoId prevProps = videoId props
  ∧ filterResetOptions (opts prevProps) = filterResetOptions (opts props).
Proof.
  unfold shouldResetPlayer.
  by rewrite orb_false_iff, strict_neq_false, negb_false_iff, isEqual_spec.
Qed.

(** ** Running the methods *)

Lemma optCall_some (c : PlayerCall) (w : World) (h : Player) :
  internalPlayer w = Some h → optCall c w = (Ok tt, log (Call h c) w).
Proof. intros H. unfold optCall, this, mbind, M_bind, emit. by rewrite H. Qed.

Lemma optCall_none (c : PlayerCall) (w : World) :
  internalPlayer w = None → optCall c w = (Ok tt, w).
Proof. intros H. unfold optCall, this, mbind, M_bind. by rewrite H. Qed.

Lemma bind_this {A B} (f : World → A) (k : A → M B) (w : World) :
  (a ← this f; k a) w = k (f w) w.
Proof. done. Qed.

Lemma when_true (m : M unit) : when true m = m.
Proof. done. Qed.

Lemma when_false (m : M unit) (k : M unit) (w : World) :
  (when false m;; k) w = k w.
Proof. done. Qed.

Lemma nullish_spec (v : prim) :
  bool_decide (typeof v = "undefined"%string) || (v === Null) = true
  ↔ v = Undefined ∨ v = Null.
Proof. destruct v; cbn; split; intros H; try done; try tauto; destruct H; done. Qed.

Lemma not_nullish (v : prim) :
  v ≠ Undefined → v ≠ Null →
  bool_decide (typeof v = "undefined"%string) || (v === Null) = false.
Proof.
  intros Hu Hn. apply not_true_iff_false. rewrite nullish_spec. tauto.
Qed.

Lemma updateVideo_nullish (w : World) :
  videoId (props w) = Undefined ∨ videoId (props w) = Null →
  updateVideo w = optCall stopVideo w.
Proof.
  intros H%nullish_spec. unfold updateVideo. by rewrite bind_this, H.
Qed.

Lemma updateVideo_defined (w : World) :
  videoId (props w) ≠ Undefined →
  videoId (props w) ≠ Null →
  playerVars (opts (props w)) ≠ PVUndefined →
  updateVideo w
  = optCall (videoCall (videoId (props w)) (playerVars (opts (props w)))) w.
Proof.
  intros Hu Hn Hpv. unfold updateVideo.
  rewrite bind_this, (not_nullish _ Hu Hn).
  unfold videoCall, videoOpts.
  destruct (playerVars (opts (props w))) as [| |vars]; [done | done |].
  cbn [or_empty]. rewrite <- !has_get_lookup.
  unfold mbind, M_bind, mret, M_ret.
  by destruct (get vars "autoplay" === Num 1).
Qed.

(** With [playerVars: undefined] the method throws before any call. *)
Lemma updateVideo_playerVars_undefined (w : World) :
  videoId (props w) ≠ Undefined →
  videoId (props w) ≠ Null →
  playerVars (opts (props w)) = PVUndefined →
  ∃ msg, updateVideo w = (Throw (TypeError msg), w).
Proof.
  intros Hu Hn Hpv. unfold updateVideo.
  rewrite bind_this, (not_nullish _ Hu Hn), Hpv. by eexists.
Qed.

(** Once mounted in a browser the component holds a handle, and an update
    keeps it. *)
Lemma componentDidMount_player (w : World) :
  document w = true →
  internalPlayer (componentDidMount w).2 = Some (created w).
Proof.
  intros Hd. unfold componentDidMount, createPlayer.
  rewrite bind_this, Hd. done.
Qed.

Lemma keeps_player_ret {A} (a : A) : keeps_player (mret a).
Proof. by intros w. Qed.

Lemma keeps_player_throw {A} (e : exn) : keeps_player (throw (A:=A) e).
Proof. by intros w. Qed.

Lemma keeps_player_this {A} (f : World → A) : keeps_player (this f).
Proof. by intros w. Qed.

Lemma keeps_player_emit (e : Effect) : keeps_player (emit e).
Proof. by intros w. Qed.

Lemma keeps_player_bind {A B} (m : M A) (k : A → M B) :
  keeps_player m → (∀ a, keeps_player (k a)) → keeps_player (m ≫= k).
Proof.
  intros Hm Hk w. unfold mbind, M_bind. specialize (Hm w).
  destruct (m w) as [[a|e] w']; simpl in *; [| done].
  by rewrite Hk.
Qed.

Lemma keeps_player_optCall (c : PlayerCall) : keeps_player (optCall c).
Proof.
  apply keeps_player_bind; [apply keeps_player_this|].
  intros [h|]; [apply keeps_player_emit | apply keeps_player_ret].
Qed.

Lemma keeps_player_when (b : bool) (m : M unit) :
  keeps_player m → keeps_player (when b m).
Proof. destruct b; [done | intros _; apply keeps_player_ret]. Qed.

Create HintDb keeps discriminated.
#[local] Hint Resolve keeps_player_ret keeps_player_throw keeps_player_this
  keeps_player_emit keeps_player_optCall keeps_player_when : keeps.

Lemma keeps_player_updateVideo : keeps_player updateVideo.
Proof.
  unfold updateVideo. apply keeps_player_bind; [auto with keeps|]. intros p.
  destruct (_ || _); [auto with keeps|].
  apply keeps_player_bind.
  - destruct (playerVars (opts p)); auto with keeps.
  - intros [[] o]; auto with keeps.
Qed.

(** An update never replaces the handle by itself: only the deferred
    [createPlayer] does. *)
Lemma keeps_player_componentDidUpdate (prevProps : YouTubeProps) :
  keeps_player (componentDidUpdate prevProps).
Proof.
  unfold componentDidUpdate, updatePlayer, resetPlayer.
  repeat (apply keeps_player_bind; [auto with keeps | intros ?]).
  apply keeps_player_when, keeps_player_updateVideo.
Qed.

(** ** The border of the trim rule *)

(** A [start] key holding [undefined] reads like a missing key: neither the
    reset nor the video update fires, though [updateVideo] would tell the two
    apart. *)
Example start_undefined_reads_as_missing :
  let prev := element (Str "abc") (mkOptions ∅ (PVObject {[ "start"%string := Undefined ]})) in
  let next := element (Str "abc") (mkOptions ∅ (PVObject ∅)) in
  shouldUpdateVideo prev next = false
  ∧ shouldResetPlayer prev next = false
  ∧ videoCall (videoId prev) (playerVars (opts prev))
    ≠ videoCall (videoId next) (playerVars (opts next)).
Proof. vm_compute. repeat split; discriminate. Qed.

(** Leaving [playerVars] out, or giving an empty one, is no change for the
    reset rule. *)
Example playerVars_missing_or_empty :
  let prev := element (Str "abc") (mkOptions ∅ PVAbsent) in
  let next := element (Str "abc") (mkOptions ∅ (PVObject ∅)) in
  opts prev ≠ opts next ∧ shouldResetPlayer prev next = false.
Proof. vm_compute. split; [discriminate | reflexivity]. Qed.

Lemma differs_outside_iff (a b : Options) :
  differs_outside a b ↔ filterResetOptions a ≠ filterResetOptions b.
Proof.
  unfold differs_outside. rewrite filterResetOptions_eq_iff. split.
  - intros [H|H] [H1 H2]; done.
  - intros H.
    destruct (decide (omit neutralOwn (own a) = omit neutralOwn (own b))) as [H1|H1];
      [| by left].
    right. intros H2. by apply H.
Qed.

(** ** Claims *)

(** C1. For every pair of configurations that differ only in the start
    and/or end trim values of [opts.playerVars], [filterResetOptions] gives
    the same object on both sides, so [shouldResetPlayer] is false, while
    [shouldUpdateVideo] is true. *)
Theorem trim_change_updates_video_without_reset (prev next : YouTubeProps) :
  trim_change prev next →
  filterResetOptions (opts prev) = filterResetOptions (opts next)
  ∧ shouldResetPlayer prev next = false
  ∧ shouldUpdateVideo prev next = true.
Proof.
  intros [Hv Hown Hvars Hdiff].
  assert (Hf : filterResetOptions (opts prev) = filterResetOptions (opts next)).
  { apply filterResetOptions_eq_iff. split; [by rewrite Hown|].
    apply omit_eq_iff. intros k Hk.
    apply (proj1 (omit_eq_iff _ _ _) Hvars).
    intros Hin. apply Hk. unfold neutralVars.
    rewrite !elem_of_cons, elem_of_nil in Hin. rewrite !elem_of_cons. tauto. }
  split; [done|]. split.
  - by apply shouldResetPlayer_false.
  - unfold shouldUpdateVideo. rewrite Hv, strict_neq_refl.
    apply orb_true_iff. by rewrite !strict_neq_true.
Qed.

Lemma trim_change_witness :
  let prev := element (Str "abc") (mkOptions ∅ (PVObject {[ "start"%string := Num 5 ]})) in
  let next := element (Str "abc") (mkOptions ∅ (PVObject {[ "start"%string := Num 7 ]})) in
  filterResetOptions (opts prev) = filterResetOptions (opts next)
  ∧ shouldResetPlayer prev next = false
  ∧ shouldUpdateVideo prev next = true.
Proof.
  intros prev next. apply (trim_change_updates_video_without_reset prev next).
  constructor.
  - reflexivity.
  - reflexivity.
  - vm_compute. reflexivity.
  - left. vm_compute. discriminate.
Defined.

(** C2. For every pair of configurations whose option objects differ in an
    option outside width, height, autoplay, start and end, the filtered
    objects stay different and [shouldResetPlayer] is true. *)
Theorem other_option_change_resets (prev next : YouTubeProps) :
  differs_outside (opts prev) (opts next) →
  filterResetOptions (opts prev) ≠ filterResetOptions (opts next)
  ∧ shouldResetPlayer prev next = true.
Proof.
  intros H%differs_outside_iff. split; [done|].
  apply shouldResetPlayer_true. by right.
Qed.

Lemma other_option_change_witness :
  let prev := element (Str "abc") (mkOptions ∅ (PVObject {[ "controls"%string := Num 0 ]})) in
  let next := element (Str "abc") (mkOptions ∅ (PVObject {[ "controls"%string := Num 1 ]})) in
  filterResetOptions (opts prev) ≠ filterResetOptions (opts next)
  ∧ shouldResetPlayer prev next = true.
Proof.
  intros prev next. apply (other_option_change_resets prev next).
  right. vm_compute. discriminate.
Defined.



(** C7. For every pair of configurations whose video identifiers differ,
    [shouldResetPlayer] and [shouldUpdateVideo] are both true, and the
    update runs both [resetPlayer] and [updateVideo]. *)
Theorem videoId_change_resets_and_updates (prev : YouTubeProps) (w : World) :
  videoId prev ≠ videoId (props w) →
  shouldResetPlayer prev (props w) = true
  ∧ shouldUpdateVideo prev (props w) = true
  ∧ componentDidUpdate prev w
    = (when (shouldUpdatePlayer prev (props w)) updatePlayer;;
       resetPlayer;; updateVideo) w.
Proof.
  intros Hv.
  assert (Hr : shouldResetPlayer prev (props w) = true).
  { apply shouldResetPlayer_true. by left. }
  assert (Hu : shouldUpdateVideo prev (props w) = true).
  { unfold shouldUpdateVideo. by rewrite (proj2 (strict_neq_true _ _) Hv). }
  repeat split; try done.
  unfold componentDidUpdate. by rewrite bind_this, Hr, Hu.
Qed.

Lemma videoId_change_witness :
  let prev := element (Str "abc") (mkOptions ∅ PVAbsent) in
  let w := mounted (element (Str "xyz") (mkOptions ∅ PVAbsent)) in
  shouldResetPlayer prev (props w) = true
  ∧ shouldUpdateVideo prev (props w) = true
  ∧ componentDidUpdate prev w
    = (when (shouldUpdatePlayer prev (props w)) updatePlayer;;
       resetPlayer;; updateVideo) w.
Proof.
  intros prev w. apply (videoId_change_resets_and_updates prev w).
  vm_compute. discriminate.
Defined.


(** ** The relay of state changes *)

Lemma PlayerState_ENDED : get PlayerState "ENDED" = Num 0.
Proof. vm_compute. reflexivity. Qed.

Lemma PlayerState_PLAYING : get PlayerState "PLAYING" = Num 1.
Proof. vm_compute. reflexivity. Qed.

Lemma PlayerState_PAUSED : get PlayerState "PAUSED" = Num 2.
Proof. vm_compute. reflexivity. Qed.

(** Any code other than 0, 1 and 2 is relayed to [onStateChange] alone. *)
Lemma onPlayerStateChange_other (p : YouTubeProps) (event : CustomEvent) :
  data event ≠ Num 0 → data event ≠ Num 1 → data event ≠ Num 2 →
  onPlayerStateChange p event = optInvoke (onStateChange p) event.
Proof.
  intros H0 H1 H2. unfold onPlayerStateChange.
  rewrite PlayerState_ENDED, PlayerState_PLAYING, PlayerState_PAUSED.
  unfold strict_eq. rewrite !bool_decide_eq_false_2 by done.
  by rewrite app_nil_r.
Qed.

(** C5. A state change is always relayed to [onStateChange]; after it, code
    0 calls [onEnd] only, code 1 calls [onPlay], code 2 calls [onPause], and
    the codes -1, 3 and 5 call nothing more.  [PlayerState] is the table
    UNSTARTED=-1, ENDED=0, PLAYING=1, PAUSED=2, BUFFERING=3, CUED=5. *)
Theorem stateChange_relay (p : YouTubeProps) :
  let relay d := optInvoke (onStateChange p) (mkEvent d) in
  onPlayerStateChange p (mkEvent (Num 0))
    = relay (Num 0) ++ optInvoke (onEnd p) (mkEvent (Num 0))
  ∧ onPlayerStateChange p (mkEvent (Num 1))
    = relay (Num 1) ++ optInvoke (onPlay p) (mkEvent (Num 1))
  ∧ onPlayerStateChange p (mkEvent (Num 2))
    = relay (Num 2) ++ optInvoke (onPause p) (mkEvent (Num 2))
  ∧ onPlayerStateChange p (mkEvent (Num (-1))) = relay (Num (-1))
  ∧ onPlayerStateChange p (mkEvent (Num 3)) = relay (Num 3)
  ∧ onPlayerStateChange p (mkEvent (Num 5)) = relay (Num 5)
  ∧ PlayerState !! "UNSTARTED"%string = Some (Num (-1))
  ∧ PlayerState !! "ENDED"%string = Some (Num 0)
  ∧ PlayerState !! "PLAYING"%string = Some (Num 1)
  ∧ PlayerState !! "PAUSED"%string = Some (Num 2)
  ∧ PlayerState !! "BUFFERING"%string = Some (Num 3)
  ∧ PlayerState !! "CUED"%string = Some (Num 5)
  ∧ size PlayerState = 6%nat.
Proof.
  intros relay. unfold relay.
  split; [| split; [| split]].
  1-3: unfold onPlayerStateChange;
       rewrite PlayerState_ENDED, PlayerState_PLAYING, PlayerState_PAUSED;
       reflexivity.
  split; [| split; [| split]].
  1-3: by apply onPlayerStateChange_other.
  repeat split; vm_compute; reflexivity.
Qed.



(** C8. Where [document] is not defined, [createPlayer] returns without an
    error and leaves the component as it was: the factory is not called,
    no event is subscribed and [internalPlayer] keeps its value, [null]
    after the constructor. *)
Theorem createPlayer_without_document (w : World) :
  document w = false →
  createPlayer w = (Ok tt, w)
  ∧ internalPlayer (createPlayer w).2 = internalPlayer w
  ∧ trace (createPlayer w).2 = trace w.
Proof.
  intros Hd.
  assert (H : createPlayer w = (Ok tt, w)).
  { unfold createPlayer. by rewrite bind_this, Hd. }
  by rewrite H.
Qed.

Lemma createPlayer_without_document_witness :
  let w := constructor defaultProps false in
  createPlayer w = (Ok tt, w)
  ∧ internalPlayer (createPlayer w).2 = None
  ∧ trace (createPlayer w).2 = [].
Proof.
  intros w. apply (createPlayer_without_document w). reflexivity.
Defined.

(** ** [updateVideo] and [playerVars: undefined] *)

(** [stopVideo] is called exactly for the identifiers [undefined] and
    [null]. *)
Lemma updateVideo_stop_iff (w : World) (h : Player) :
  internalPlayer w = Some h →
  updateVideo w = (Ok tt, log (Call h stopVideo) w)
  ↔ videoId (props w) = Undefined ∨ videoId (props w) = Null.
Proof.
  intros Hh. split.
  - intros Hrun.
    destruct (decide (videoId (props w) = Undefined)) as [|Hu]; [by left|].
    destruct (decide (videoId (props w) = Null)) as [|Hn]; [by right|].
    exfalso.
    destruct (decide (playerVars (opts (props w)) = PVUndefined)) as [Hpv|Hpv].
    + destruct (updateVideo_playerVars_undefined w Hu Hn Hpv) as [msg Hm].
      congruence.
    + rewrite (updateVideo_defined w Hu Hn Hpv), (optCall_some _ _ h Hh) in Hrun.
      injection Hrun as Ht. apply app_inv_head in Ht.
      unfold videoCall in Ht.
      by destruct (get _ "autoplay" === Num 1).
  - intros H. rewrite updateVideo_nullish by done. by apply optCall_some.
Qed.

(** C4. At a defined identifier with [opts = { playerVars: undefined }] the
    method makes no call: reading [autoplay] throws. *)
Theorem updateVideo_playerVars_undefined_throws :
  let w := mounted (element (Str "abc") (mkOptions ∅ PVUndefined)) in
  updateVideo w
  = (Throw (TypeError "Cannot read properties of undefined (reading 'autoplay')"), w).
Proof. vm_compute. reflexivity. Qed.

(** C10. With the default identifier, the empty string, and
    [opts = { playerVars: undefined }] the method neither stops nor cues
    nor loads: it throws and the trace stays empty. *)
Theorem updateVideo_default_videoId_throws :
  let w := mounted (element (videoId defaultProps) (mkOptions ∅ PVUndefined)) in
  videoId (props w) = Str ""
  ∧ (∃ msg, updateVideo w = (Throw (TypeError msg), w))
  ∧ trace (updateVideo w).2 = [].
Proof.
  intros w. split; [reflexivity|]. split.
  - eexists. vm_compute. reflexivity.
  - vm_compute. reflexivity.
Qed.

(** * Further properties of the component *)

(** ** Methods as lists of calls *)

Lemma logs_nil (w : World) : logs [] w = w.
Proof. destruct w. unfold logs. simpl. by rewrite app_nil_r. Qed.

Lemma logs_logs (l1 l2 : list Effect) (w : World) :
  logs l2 (logs l1 w) = logs (l1 ++ l2) w.
Proof. unfold logs. simpl. by rewrite app_assoc. Qed.

Lemma bind_run_ok {A B} (m : M A) (k : A → M B) (w w' : World) (a : A) :
  m w = (Ok a, w') → (m ≫= k) w = k a w'.
Proof. intros H. unfold mbind, M_bind. by rewrite H. Qed.

Lemma optCall_run (c : PlayerCall) (w : World) :
  optCall c w = (Ok tt, logs (onPlayer (internalPlayer w) c) w).
Proof.
  destruct (internalPlayer w) as [h|] eqn:H.
  - by rewrite (optCall_some _ _ h).
  - rewrite optCall_none by done. simpl. by rewrite logs_nil.
Qed.

Lemma updateVideo_run (w : World) :
  updateVideo w
  = (if videoThrows (props w) then Throw autoplayError else Ok tt,
     logs (videoCalls (internalPlayer w) (props w)) w).
Proof.
  unfold videoThrows, videoCalls.
  destruct (nullish (videoId (props w))) eqn:Hn; cbn [negb andb].
  - rewrite updateVideo_nullish by (by apply nullish_spec). apply optCall_run.
  - assert (Hu : videoId (props w) ≠ Undefined).
    { intros E. rewrite E in Hn. discriminate. }
    assert (Hl : videoId (props w) ≠ Null).
    { intros E. rewrite E in Hn. discriminate. }
    destruct (decide (playerVars (opts (props w)) = PVUndefined)) as [Hpv|Hpv].
    + rewrite bool_decide_eq_true_2 by done. rewrite logs_nil.
      unfold updateVideo. rewrite bind_this. fold (nullish (videoId (props w))).
      by rewrite Hn, Hpv.
    + rewrite bool_decide_eq_false_2 by done.
      rewrite updateVideo_defined by done. apply optCall_run.
Qed.

Lemma componentDidUpdate_run (prevProps : YouTubeProps) (w : World) :
  componentDidUpdate prevProps w
  = (if shouldUpdateVideo prevProps (props w) && videoThrows (props w)
     then Throw autoplayError else Ok tt,
     logs (didUpdateCalls prevProps w) w).
Proof.
  unfold componentDidUpdate, didUpdateCalls, updatePlayer, resetPlayer.
  rewrite bind_this.
  set (l1 := if shouldUpdatePlayer prevProps (props w)
             then onPlayer (internalPlayer w) getIframe else []).
  set (l2 := if shouldResetPlayer prevProps (props w)
             then onPlayer (internalPlayer w) destroy else []).
  assert (H1 : when (shouldUpdatePlayer prevProps (props w)) (optCall getIframe) w
               = (Ok tt, logs l1 w)).
  { unfold l1. destruct (shouldUpdatePlayer _ _); [apply optCall_run|].
    by rewrite logs_nil. }
  assert (H2 : when (shouldResetPlayer prevProps (props w)) (optCall destroy) (logs l1 w)
               = (Ok tt, logs (l1 ++ l2) w)).
  { unfold l2. destruct (shouldResetPlayer _ _); cbn [when].
    - by rewrite optCall_run, logs_logs.
    - by rewrite app_nil_r. }
  rewrite (bind_run_ok _ _ _ _ _ H1), (bind_run_ok _ _ _ _ _ H2).
  destruct (shouldUpdateVideo _ _); cbn [when andb].
  - by rewrite updateVideo_run, logs_logs, app_assoc.
  - by rewrite !app_nil_r.
Qed.

Lemma videoId_differs_fires_both (prev next : YouTubeProps) :
  videoId prev ≠ videoId next →
  shouldResetPlayer prev next = true ∧ shouldUpdateVideo prev next = true.
Proof.
  intros Hv. split.
  - apply shouldResetPlayer_true. by left.
  - unfold shouldUpdateVideo. by rewrite (proj2 (strict_neq_true _ _) Hv).
Qed.

(** ** What an update calls, and when it fails *)

(** X1. With a handle [h], the calls of an update are, in this order,
    [getIframe] when the appearance changed, [destroy] when a reset is
    due and the call of [updateVideo] when the video changed, all on [h]. *)
Theorem componentDidUpdate_calls (prevProps : YouTubeProps) (w : World) (h : Player) :
  internalPlayer w = Some h →
  trace (componentDidUpdate prevProps w).2
  = trace w
    ++ (if shouldUpdatePlayer prevProps (props w) then [Call h getIframe] else [])
    ++ (if shouldResetPlayer prevProps (props w) then [Call h destroy] else [])
    ++ (if shouldUpdateVideo prevProps (props w)
        then videoCalls (Some h) (props w) else []).
Proof.
  intros Hh. rewrite componentDidUpdate_run. unfold didUpdateCalls.
  by rewrite Hh.
Qed.

Lemma componentDidUpdate_calls_witness :
  let prev := element (Str "abc") (mkOptions ∅ PVAbsent) in
  let w := mounted (element (Str "xyz")
                      (mkOptions ∅ (PVObject {[ "autoplay"%string := Num 1 ]}))) in
  trace (componentDidUpdate prev w).2
  = [ Call 0%nat destroy;
      Call 0%nat (loadVideoById (mkVideoOpts (Str "xyz") None None)) ].
Proof.
  intros prev w.
  rewrite (componentDidUpdate_calls prev w 0%nat); [| reflexivity].
  vm_compute. reflexivity.
Defined.

(** X2. An update changes nothing but the trace: it keeps the props, the
    container and the handle, never calls the factory, and every call it
    makes is a call on the handle it found. *)
Theorem componentDidUpdate_frame (prevProps : YouTubeProps) (w : World) :
  ∃ l : list Effect,
    (componentDidUpdate prevProps w).2 = logs l w
    ∧ Forall (λ e, ∃ h c, e = Call h c ∧ internalPlayer w = Some h) l.
Proof.
  exists (didUpdateCalls prevProps w). split.
  - by rewrite componentDidUpdate_run.
  - unfold didUpdateCalls, videoCalls.
    destruct (internalPlayer w) as [h|]; cbn [onPlayer];
      repeat (apply Forall_app; split);
      repeat match goal with
             | |- Forall _ (if ?b then _ else _) => destruct b
             | |- Forall _ [] => apply Forall_nil_2
             | |- Forall _ [_] => apply Forall_singleton; by eexists _, _
             end.
Qed.


(** X4. When the identifier changes while [playerVars] is [undefined], the
    error comes after the reset has begun: [destroy] is already called and
    no video call follows. *)
Theorem videoId_change_destroys_then_throws
    (prevProps : YouTubeProps) (w : World) (h : Player) :
  internalPlayer w = Some h →
  videoId prevProps ≠ videoId (props w) →
  videoId (props w) ≠ Undefined →
  videoId (props w) ≠ Null →
  playerVars (opts (props w)) = PVUndefined →
  componentDidUpdate prevProps w
  = (Throw autoplayError,
     logs ((if shouldUpdatePlayer prevProps (props w)
            then [Call h getIframe] else []) ++ [Call h destroy]) w).
Proof.
  intros Hh Hv Hu Hl Hpv.
  destruct (videoId_differs_fires_both prevProps (props w) Hv) as [Hr Hu'].
  rewrite componentDidUpdate_run. unfold didUpdateCalls, videoThrows, videoCalls.
  rewrite Hr, Hu', Hh, Hpv. cbn [onPlayer andb].
  assert (Hn : nullish (videoId (props w)) = false).
  { unfold nullish. by apply not_nullish. }
  rewrite Hn. cbn. by rewrite bool_decide_eq_true_2.
Qed.

Lemma videoId_change_destroys_then_throws_witness :
  let prev := element (Str "abc") (mkOptions ∅ PVUndefined) in
  let w := mounted (element (Str "xyz") (mkOptions ∅ PVUndefined)) in
  componentDidUpdate prev w = (Throw autoplayError, logs [Call 0%nat destroy] w).
Proof.
  intros prev w.
  apply (videoId_change_destroys_then_throws prev w 0%nat);
    [reflexivity | | | | reflexivity]; vm_compute; discriminate.
Defined.

(** X5. Without a handle nothing is called: an update, [updateVideo],
    [updatePlayer], [resetPlayer] and [componentWillUnmount] leave the
    world as it is. *)
Theorem no_player_no_calls (prevProps : YouTubeProps) (w : World) :
  internalPlayer w = None →
  (componentDidUpdate prevProps w).2 = w
  ∧ (updateVideo w).2 = w
  ∧ updatePlayer w = (Ok tt, w)
  ∧ resetPlayer w = (Ok tt, w)
  ∧ componentWillUnmount w = (Ok tt, w).
Proof.
  intros Hn.
  assert (Hv : videoCalls None (props w) = []).
  { unfold videoCalls. destruct (nullish _); [done|]. by case_bool_decide. }
  repeat split.
  - rewrite componentDidUpdate_run. unfold didUpdateCalls.
    rewrite Hn, Hv. cbn [onPlayer snd].
    destruct (shouldUpdatePlayer _ _), (shouldResetPlayer _ _),
      (shouldUpdateVideo _ _); apply logs_nil.
  - rewrite updateVideo_run, Hn, Hv. apply logs_nil.
  - by apply optCall_none.
  - by apply optCall_none.
  - by apply optCall_none.
Qed.

Lemma no_player_no_calls_witness :
  let prev := element (Str "abc") (mkOptions ∅ PVAbsent) in
  let w := (componentDidMount (constructor (element (Str "xyz") (mkOptions ∅ PVAbsent)) false)).2 in
  (componentDidUpdate prev w).2 = w
  ∧ (updateVideo w).2 = w
  ∧ updatePlayer w = (Ok tt, w)
  ∧ resetPlayer w = (Ok tt, w)
  ∧ componentWillUnmount w = (Ok tt, w).
Proof.
  intros prev w. apply (no_player_no_calls prev w). reflexivity.
Defined.

(** ** Creating, resetting and releasing the player *)

Lemma createPlayer_run (w : World) :
  document w = true → createPlayer w = (Ok tt, withNewPlayer w).
Proof.
  intros Hd. unfold createPlayer. rewrite bind_this, Hd. cbn [negb].
  unfold withNewPlayer, subscriptions, factoryOpts.
  unfold mbind, M_bind, this, newPlayer, emit, log. cbn.
  by rewrite <- !app_assoc.
Qed.

(** X6. In a browser [createPlayer] calls the factory once, with the
    container as it is (a missing one included) and with the options of the
    props in which [videoId] is the [videoId] prop, whatever [opts.videoId]
    was; it stores the new handle and subscribes the five events on it, in
    the order ready, error, stateChange, playbackRateChange,
    playbackQualityChange. *)
Theorem createPlayer_in_browser (w : World) :
  document w = true →
  createPlayer w = (Ok tt, withNewPlayer w)
  ∧ own (factoryOpts (props w)) !! "videoId"%string = Some (videoId (props w))
  ∧ delete "videoId"%string (own (factoryOpts (props w)))
    = delete "videoId"%string (own (opts (props w)))
  ∧ playerVars (factoryOpts (props w)) = playerVars (opts (props w)).
Proof.
  intros Hd. repeat split.
  - by apply createPlayer_run.
  - unfold factoryOpts. cbn [own]. apply lookup_insert_eq.
  - unfold factoryOpts. cbn [own]. apply delete_insert_eq.
Qed.

Lemma createPlayer_in_browser_witness :
  let p := element (Str "xyz") (mkOptions {[ "videoId"%string := Str "abc" ]} PVAbsent) in
  let w := constructor p true in
  createPlayer w = (Ok tt, withNewPlayer w)
  ∧ own (factoryOpts p) !! "videoId"%string = Some (Str "xyz")
  ∧ delete "videoId"%string (own (factoryOpts p)) = delete "videoId"%string (own (opts p))
  ∧ playerVars (factoryOpts p) = PVAbsent.
Proof.
  intros p w. apply (createPlayer_in_browser w). reflexivity.
Defined.

(** X7. A reset followed by its continuation calls [destroy] on the old
    handle, then the factory, then the five subscriptions on the new handle,
    which replaces the old one in [internalPlayer]. *)
Theorem resetPlayer_then_createPlayer (w : World) (h : Player) :
  document w = true →
  internalPlayer w = Some h →
  (resetPlayer;; resetPlayer_then) w
  = (Ok tt, withNewPlayer (log (Call h destroy) w)).
Proof.
  intros Hd Hh. unfold resetPlayer, resetPlayer_then.
  rewrite (bind_run_ok _ _ _ _ _ (optCall_some destroy w h Hh)).
  by apply createPlayer_run.
Qed.

Lemma resetPlayer_then_createPlayer_witness :
  let w := mounted (element (Str "abc") (mkOptions ∅ PVAbsent)) in
  trace ((resetPlayer;; resetPlayer_then) w).2
  = Call 0%nat destroy
    :: youTubePlayer (Some 0%nat) (factoryOpts (props w)) 1%nat
    :: subscriptions 1%nat
  ∧ internalPlayer ((resetPlayer;; resetPlayer_then) w).2 = Some 1%nat.
Proof.
  intros w.
  rewrite (resetPlayer_then_createPlayer w 0%nat); [| reflexivity | reflexivity].
  split; reflexivity.
Defined.

(** X8. From the constructor, [getInternalPlayer] gives [null] before the
    mount and on a server, and after a mount in a browser the handle the
    factory returned for the container of [refContainer]. *)
Theorem getInternalPlayer_after_mount (p : YouTubeProps) (c : Element) (doc : bool) :
  (getInternalPlayer (constructor p doc)).1 = Ok None
  ∧ ((refContainer c;; componentDidMount;; getInternalPlayer) (constructor p doc)).1
    = Ok (if doc then Some 0%nat else None)
  ∧ trace ((refContainer c;; componentDidMount;; getInternalPlayer) (constructor p doc)).2
    = if doc then youTubePlayer (Some c) (factoryOpts p) 0%nat :: subscriptions 0%nat
      else [].
Proof.
  destruct doc; repeat split.
Qed.

(** X9. Unmounting calls [destroy] on the handle and keeps the reference:
    [getInternalPlayer] still gives the destroyed handle. *)
Theorem componentWillUnmount_keeps_reference (w : World) (h : Player) :
  internalPlayer w = Some h →
  (componentWillUnmount;; getInternalPlayer) w
  = (Ok (Some h), log (Call h destroy) w).
Proof.
  intros Hh. unfold componentWillUnmount.
  rewrite (bind_run_ok _ _ _ _ _ (optCall_some destroy w h Hh)).
  unfold getInternalPlayer, this. cbn. by rewrite Hh.
Qed.

Lemma componentWillUnmount_keeps_reference_witness :
  let w := mounted defaultProps in
  (componentWillUnmount;; getInternalPlayer) w
  = (Ok (Some 0%nat), log (Call 0%nat destroy) w).
Proof.
  intros w. apply (componentWillUnmount_keeps_reference w 0%nat). reflexivity.
Defined.

(** ** The three predicates *)

Lemma shouldUpdateVideo_false (prev next : YouTubeProps) :
  shouldUpdateVideo prev next = false ↔
  videoId prev = videoId next
  ∧ get (or_empty (playerVars (opts prev))) "start"
    = get (or_empty (playerVars (opts next))) "start"
  ∧ get (or_empty (playerVars (opts prev))) "end"
    = get (or_empty (playerVars (opts next))) "end".
Proof.
  unfold shouldUpdateVideo.
  destruct (videoId prev !== videoId next) eqn:Hv.
  - apply strict_neq_true in Hv. split; [discriminate | tauto].
  - apply strict_neq_false in Hv.
    rewrite orb_false_iff, !strict_neq_false. tauto.
Qed.

Lemma shouldUpdatePlayer_false (prev next : YouTubeProps) :
  shouldUpdatePlayer prev next = false ↔
  id prev = id next
  ∧ className prev = className next
  ∧ get (own (opts prev)) "width" = get (own (opts next)) "width"
  ∧ get (own (opts prev)) "height" = get (own (opts next)) "height"
  ∧ title prev = title next.
Proof.
  unfold shouldUpdatePlayer. rewrite !orb_false_iff, !strict_neq_false. tauto.
Qed.






Lemma strict_neq_sym (a b : prim) : (a !== b) = (b !== a).
Proof.
  destruct (b !== a) eqn:H.
  - apply strict_neq_true. apply strict_neq_true in H. congruence.
  - apply strict_neq_false. apply strict_neq_false in H. congruence.
Qed.

Lemma isEqual_sym (a b : Options) : isEqual a b = isEqual b a.
Proof.
  destruct (isEqual b a) eqn:H.
  - apply isEqual_spec. apply isEqual_spec in H. congruence.
  - apply isEqual_false. apply isEqual_false in H. congruence.
Qed.

(** X12. Each predicate gives the same answer when the previous and the
    next configuration are exchanged. *)
Theorem predicates_symmetric (a b : YouTubeProps) :
  shouldUpdatePlayer a b = shouldUpdatePlayer b a
  ∧ shouldResetPlayer a b = shouldResetPlayer b a
  ∧ shouldUpdateVideo a b = shouldUpdateVideo b a.
Proof.
  repeat split.
  - unfold shouldUpdatePlayer.
    by rewrite (strict_neq_sym (id a)), (strict_neq_sym (className a)),
      (strict_neq_sym (title a)), (strict_neq_sym (get (own (opts a)) "width")),
      (strict_neq_sym (get (own (opts a)) "height")).
  - unfold shouldResetPlayer.
    by rewrite (strict_neq_sym (videoId a)), (isEqual_sym (filterResetOptions (opts a))).
  - unfold shouldUpdateVideo.
    by rewrite (strict_neq_sym (videoId a)),
      (strict_neq_sym (get (or_empty (playerVars (opts a))) "start")),
      (strict_neq_sym (get (or_empty (playerVars (opts a))) "end")).
Qed.

(** X13. Updates that fire nothing compose: if no predicate fires from [a]
    to [b] nor from [b] to [c], none fires from [a] to [c]. *)
Theorem silent_trans (a b c : YouTubeProps) :
  silent a b → silent b c → silent a c.
Proof.
  intros (Hp1 & Hr1 & Hu1) (Hp2 & Hr2 & Hu2).
  apply shouldUpdatePlayer_false in Hp1, Hp2.
  apply shouldResetPlayer_false in Hr1, Hr2.
  apply shouldUpdateVideo_false in Hu1, Hu2.
  repeat split.
  - apply shouldUpdatePlayer_false.
    destruct Hp1 as (?&?&?&?&?), Hp2 as (?&?&?&?&?). repeat split; congruence.
  - apply shouldResetPlayer_false.
    destruct Hr1, Hr2. split; congruence.
  - apply shouldUpdateVideo_false.
    destruct Hu1 as (?&?&?), Hu2 as (?&?&?). repeat split; congruence.
Qed.

Lemma silent_trans_witness :
  let a := element (Str "abc") (mkOptions ∅ PVAbsent) in
  let b := element (Str "abc") (mkOptions ∅ (PVObject {[ "autoplay"%string := Num 1 ]})) in
  let c := element (Str "abc") (mkOptions {[ "width"%string := Undefined ]} PVUndefined) in
  silent a c.
Proof.
  intros a b c. apply (silent_trans a b c); vm_compute; repeat split.
Defined.

(** X14. The reset fires exactly when the identifier changes or the option
    objects differ outside width, height, autoplay, start and end. *)
Theorem shouldResetPlayer_iff (prev next : YouTubeProps) :
  shouldResetPlayer prev next = true ↔
  videoId prev ≠ videoId next ∨ differs_outside (opts prev) (opts next).
Proof.
  by rewrite shouldResetPlayer_true, differs_outside_iff.
Qed.



Ltac lookup_inserts :=
  repeat first [rewrite lookup_insert_eq | rewrite lookup_insert_ne by done].

(** X16. Filtering twice is filtering once: the filter leaves a filtered
    object as it is. *)
Theorem filterResetOptions_idempotent (o : Options) :
  filterResetOptions (filterResetOptions o) = filterResetOptions o.
Proof.
  unfold filterResetOptions. cbn [own playerVars spread]. f_equal; [| f_equal].
  - apply map_eq. intros k.
    destruct (decide ("width"%string = k)) as [<-|Hw]; [by lookup_inserts|].
    destruct (decide ("height"%string = k)) as [<-|Hh]; by lookup_inserts.
  - apply map_eq. intros k.
    destruct (decide ("end"%string = k)) as [<-|He]; [by lookup_inserts|].
    destruct (decide ("start"%string = k)) as [<-|Hs]; [by lookup_inserts|].
    destruct (decide ("autoplay"%string = k)) as [<-|Ha]; by lookup_inserts.
Qed.

(** ** The attribute writes of [updatePlayer] *)

Lemma truthy_false (v : prim) :
  truthy v = false ↔
  v = Undefined ∨ v = Null ∨ v = Bool false ∨ v = Num 0 ∨ v = Str "".
Proof.
  destruct v as [| |[]|n|s]; cbn.
  - split; [tauto | done].
  - split; [tauto | done].
  - split; [discriminate | intros [H|[H|[H|[H|H]]]]; discriminate].
  - split; [tauto | done].
  - rewrite negb_false_iff, Z.eqb_eq. split.
    + intros ->. tauto.
    + intros [H|[H|[H|[H|H]]]]; congruence.
  - rewrite negb_false_iff, bool_decide_eq_true. split.
    + intros ->. tauto.
    + intros [H|[H|[H|[H|H]]]]; congruence.
Qed.

(** Membership in a list of attribute writes given one by one. *)
Ltac mem_iff :=
  let H := fresh in
  intros H; try reflexivity; try discriminate H;
  first [ exfalso; repeat (destruct H as [H|H]; [discriminate H|]); exact H
        | auto 10 ].

(** X17. Once the iframe is there, [updatePlayer] writes the attributes id,
    class, width, height and title, once each and in this order.  The
    title is always set, to the [title] prop when it is a string and to
    "YouTube video player" otherwise; each of the other four is removed
    exactly when its prop is falsy, so an empty id or a width of 0 removes
    the attribute. *)
Theorem updatePlayer_then_attributes (p : YouTubeProps) :
  attrName <$> updatePlayer_then p = ["id"; "class"; "width"; "height"; "title"]%string
  ∧ updatePlayer_then p !! 4%nat
    = Some (setAttribute "title"
              (match title p with Str s => s | _ => "YouTube video player"%string end))
  ∧ (removeAttribute "id" ∈ updatePlayer_then p ↔ truthy (id p) = false)
  ∧ (removeAttribute "class" ∈ updatePlayer_then p ↔ truthy (className p) = false)
  ∧ (removeAttribute "width" ∈ updatePlayer_then p
     ↔ truthy (get (own (opts p)) "width") = false)
  ∧ (removeAttribute "height" ∈ updatePlayer_then p
     ↔ truthy (get (own (opts p)) "height") = false).
Proof.
  unfold updatePlayer_then. split; [| split].
  - cbn. by destruct (truthy (id p)), (truthy (className p)),
      (truthy (get (own (opts p)) "width")), (truthy (get (own (opts p)) "height")),
      (bool_decide _).
  - cbn. by destruct (title p).
  - destruct (truthy (id p)), (truthy (className p)),
      (truthy (get (own (opts p)) "width")), (truthy (get (own (opts p)) "height")),
      (bool_decide (typeof (title p) = "string"%string));
      rewrite !elem_of_cons, !elem_of_nil; repeat split; mem_iff.
Qed.

(** ** The event handlers *)

(** X18. Every handler passes the event on as it came, to at most one
    callback, and [onPlayerStateChange] to at most two. *)
Theorem handlers_pass_event (ev : EventName) (p : YouTubeProps) (event : CustomEvent) :
  Forall (λ inv, ∃ f, inv = Invoke f event) (handler ev p event)
  ∧ (length (handler ev p event) ≤ if bool_decide (ev = stateChange) then 2 else 1)%nat.
Proof.
  destruct ev; cbn [handler]; rewrite ?bool_decide_eq_true_2 by done;
    rewrite ?bool_decide_eq_false_2 by done;
    unfold onPlayerReady, onPlayerError, onPlayerStateChange,
      onPlayerPlaybackRateChange, onPlayerPlaybackQualityChange, optInvoke.
  3: { destruct (onStateChange p), (onEnd p), (onPlay p), (onPause p);
       destruct (data event === get PlayerState "ENDED"),
         (data event === get PlayerState "PLAYING"),
         (data event === get PlayerState "PAUSED");
       cbn; (split; [repeat constructor; by eexists | lia]). }
  - destruct (onReady p); cbn; (split; [repeat constructor; by eexists | lia]).
  - destruct (onError p); cbn; (split; [repeat constructor; by eexists | lia]).
  - destruct (onPlaybackRateChange p); cbn;
      (split; [repeat constructor; by eexists | lia]).
  - destruct (onPlaybackQualityChange p); cbn;
      (split; [repeat constructor; by eexists | lia]).
Qed.

(** X19. Where the caller passed no callback at all, every handler does
    nothing, whatever the event. *)
Theorem missing_callbacks_are_noops
    (v i c cc t l : prim) (cs : obj) (o : Options)
    (ev : EventName) (event : CustomEvent) :
  handler ev (mkProps v i c cc cs t l o None None None None None None None None) event
  = [].
Proof.
  destruct ev; try done.
  unfold handler, onPlayerStateChange, optInvoke; cbn [onStateChange onEnd onPlay onPause app].
  by repeat case_match.
Qed.

(** X20. A state change whose data is not one of the numbers 0, 1 and 2 (a
    string "1" included) reaches [onStateChange] only. *)
Theorem stateChange_other_data (p : YouTubeProps) (event : CustomEvent) :
  data event ≠ Num 0 → data event ≠ Num 1 → data event ≠ Num 2 →
  onPlayerStateChange p event = optInvoke (onStateChange p) event.
Proof. apply onPlayerStateChange_other. Qed.

Lemma stateChange_other_data_witness :
  onPlayerStateChange defaultProps (mkEvent (Str "1"))
  = [Invoke Noop (mkEvent (Str "1"))].
Proof.
  apply (stateChange_other_data defaultProps (mkEvent (Str "1"))); discriminate.
Defined.

(** ** [updateVideo] on well-formed options *)

(** X21. For an identifier that is neither [undefined] nor [null], and
    [playerVars] missing or an object, [updateVideo] makes one call: it is
    [loadVideoById] when [playerVars.autoplay] is the number 1 and
    [cueVideoById] for any other value; its argument holds the identifier,
    and [startSeconds] and [endSeconds] exactly when the keys [start] and
    [end] are in [playerVars]. *)
Theorem updateVideo_cue_or_load (w : World) (h : Player) :
  internalPlayer w = Some h →
  videoId (props w) ≠ Undefined →
  videoId (props w) ≠ Null →
  playerVars (opts (props w)) ≠ PVUndefined →
  let vars := or_empty (playerVars (opts (props w))) in
  let o := mkVideoOpts (videoId (props w)) (vars !! "start") (vars !! "end") in
  updateVideo w
  = (Ok tt,
     log (Call h (if get vars "autoplay" === Num 1
                  then loadVideoById o else cueVideoById o)) w).
Proof.
  intros Hh Hu Hl Hpv vars o.
  rewrite (updateVideo_defined w Hu Hl Hpv). by apply optCall_some.
Qed.

Lemma updateVideo_cue_or_load_witness :
  let w := mounted (element (Str "")
             (mkOptions ∅ (PVObject {[ "autoplay"%string := Str "1";
                                       "start"%string := Undefined ]}))) in
  updateVideo w
  = (Ok tt, log (Call 0%nat (cueVideoById
                   (mkVideoOpts (Str "") (Some Undefined) None))) w).
Proof.
  intros w.
  rewrite (updateVideo_cue_or_load w 0%nat);
    [reflexivity | reflexivity | discriminate | discriminate | discriminate].
Defined.

(** X22. With a handle, [updateVideo] ends in the single call [stopVideo]
    exactly when the identifier is [undefined] or [null]. *)
Theorem stopVideo_iff_nullish (w : World) (h : Player) :
  internalPlayer w = Some h →
  updateVideo w = (Ok tt, log (Call h stopVideo) w)
  ↔ videoId (props w) = Undefined ∨ videoId (props w) = Null.
Proof. apply updateVideo_stop_iff. Qed.

Lemma stopVideo_iff_nullish_witness :
  let w := mounted (element Null (mkOptions ∅ PVUndefined)) in
  updateVideo w = (Ok tt, log (Call 0%nat stopVideo) w).
Proof.
  intros w.
  apply (proj2 (stopVideo_iff_nullish w 0%nat eq_refl)). right. reflexivity.
Defined.
